(** * verify_header.py: a shallow embedding of the screenshot script

    The script under [jules-scratch/verification/verify_header.py] is a
    straight line of calls into Playwright's synchronous API.  Playwright
    itself is an external collaborator: it is modelled as a record of
    operations over an arbitrary world type, each of which either returns
    a value or raises.  The script is written in a small state-and-
    exception monad that threads the world and logs every call made to the
    API together with its outcome; properties of the script are properties
    of that log and of the final result, for every possible API. *)

From stdpp Require Import gmap strings list.

Open Scope string_scope.
Open Scope list_scope.

(** ** Python values crossing the API boundary *)

(** Python objects handed out by Playwright are opaque to the script; only
    their identity matters. *)
Definition playwright := nat.
Definition browser := nat.
Definition context := nat.
Definition page := nat.

(** A raised exception, identified by its message. *)
Definition exn := string.

Inductive result (A : Type) : Type :=
| Ok (a : A)
| Raise (e : exn).
Arguments Ok {A} a.
Arguments Raise {A} e.

(** ** The calls the script can make, and what the log records *)

Inductive call : Type :=
| SyncPlaywrightEnter
| SyncPlaywrightExit (exc : option exn)
| ChromiumLaunch (pw : playwright)
| NewContext (b : browser) (viewport : gmap string Z)
| NewPage (c : context)
| Goto (p : page) (url : string)
| Screenshot (p : page) (path : string)
| Close (b : browser).

Inductive value : Type :=
| VNone
| VBool (x : bool)
| VPlaywright (pw : playwright)
| VBrowser (b : browser)
| VContext (c : context)
| VPage (p : page).

Inductive outcome : Type :=
| Returned (v : value)
| Raised (e : exn).

Definition event : Type := call * outcome.

Definition outcome_of {A} (inj : A → value) (r : result A) : outcome :=
  match r with
  | Ok a => Returned (inj a)
  | Raise e => Raised e
  end.

(** ** Playwright's synchronous API, as far as the script touches it *)

Record sync_api (W : Type) : Type := SyncApi {
  (* sync_playwright().__enter__() *)
  cm_enter : W → W * result playwright;
  (* sync_playwright().__exit__(exc): a true return value would swallow
     the exception in flight *)
  cm_exit : option exn → W → W * result bool;
  (* playwright.chromium.launch() *)
  chromium_launch : playwright → W → W * result browser;
  (* browser.new_context(viewport=...) *)
  new_context : browser → gmap string Z → W → W * result context;
  (* context.new_page() *)
  new_page : context → W → W * result page;
  (* page.goto(url); the Response it returns is discarded by the script *)
  goto : page → string → W → W * result unit;
  (* page.screenshot(path=...); the bytes it returns are discarded *)
  screenshot : page → string → W → W * result unit;
  (* browser.close() *)
  close : browser → W → W * result unit
}.
Arguments cm_enter {W} _ _.
Arguments cm_exit {W} _ _ _.
Arguments chromium_launch {W} _ _ _.
Arguments new_context {W} _ _ _ _.
Arguments new_page {W} _ _ _.
Arguments goto {W} _ _ _ _.
Arguments screenshot {W} _ _ _ _.
Arguments close {W} _ _ _.

(** ** The monad of the script: world, log, exceptions *)

Definition state (W : Type) : Type := W * list event.

Definition M (W A : Type) : Type := state W → state W * result A.

Definition ret {W A} (a : A) : M W A := fun s => (s, Ok a).

Definition bind {W A B} (m : M W A) (k : A → M W B) : M W B :=
  fun s =>
    match m s with
    | (s', Ok a) => k a s'
    | (s', Raise e) => (s', Raise e)
    end.

Notation "'let!' x ':=' m 'in' k" := (bind m (fun x => k))
  (at level 10, x name, m at level 100, k at level 200).
Notation "'do!' m 'in' k" := (bind m (fun _ => k))
  (at level 10, m at level 100, k at level 200).

(** One call into the API: run it on the world and append the call and
    its outcome to the log. *)
Definition invoke {W A} (c : call) (inj : A → value)
    (f : W → W * result A) : M W A :=
  fun s =>
    let '(w', r) := f s.1 in
    ((w', s.2 ++ [(c, outcome_of inj r)]), r).

(** Python's [with mgr as x: body].  [__enter__] failing skips both the
    body and [__exit__].  Otherwise [__exit__] always runs: with no
    exception after a normal body, with the exception in flight after a
    raising one, which is then re-raised unless [__exit__] returned a true
    value. *)
Definition with_ {W A} (enter : M W A) (exit : option exn → M W bool)
    (body : A → M W unit) : M W unit :=
  fun s =>
    match enter s with
    | (s1, Raise e) => (s1, Raise e)
    | (s1, Ok x) =>
        match body x s1 with
        | (s2, Ok _) =>
            match exit None s2 with
            | (s3, Ok _) => (s3, Ok tt)
            | (s3, Raise e') => (s3, Raise e')
            end
        | (s2, Raise e) =>
            match exit (Some e) s2 with
            | (s3, Ok true) => (s3, Ok tt)
            | (s3, Ok false) => (s3, Raise e)
            | (s3, Raise e') => (s3, Raise e')
            end
        end
    end.

(** ** The script *)

(** The three literals of the script. *)
Definition viewport : gmap string Z := {[ "width" := 375%Z; "height" := 667%Z ]}.
Definition url : string := "http://127.0.0.1:5173/".
Definition path : string := "jules-scratch/verification/verification.png".

Section Script.
Context {W : Type} (api : sync_api W).

Definition run (pw : playwright) : M W unit :=
  let! browser := invoke (ChromiumLaunch pw) VBrowser (chromium_launch api pw) in
  let! context := invoke (NewContext browser viewport) VContext
                    (new_context api browser viewport) in
  let! page := invoke (NewPage context) VPage (new_page api context) in
  do! invoke (Goto page url) (fun _ => VNone) (goto api page url) in
  do! invoke (Screenshot page path) (fun _ => VNone) (screenshot api page path) in
  invoke (Close browser) (fun _ => VNone) (close api browser).

(** The module body: [with sync_playwright() as playwright: run(playwright)]. *)
Definition script : M W unit :=
  with_ (invoke SyncPlaywrightEnter VPlaywright (cm_enter api))
        (fun exc => invoke (SyncPlaywrightExit exc) VBool (cm_exit api exc))
        run.
End Script.

(** ** Executions and what is observed of them *)

Section Observations.
Context {W : Type} (api : sync_api W).

(** An execution of [run] on its own, from world [w] with an empty log. *)
Definition run_trace (pw : playwright) (w : W) : list event :=
  (run api pw (w, [])).1.2.
Definition run_result (pw : playwright) (w : W) : result unit :=
  (run api pw (w, [])).2.
Definition run_world (pw : playwright) (w : W) : W :=
  (run api pw (w, [])).1.1.

(** An execution of the whole script. *)
Definition script_trace (w : W) : list event := (script api (w, [])).1.2.
Definition script_result (w : W) : result unit := (script api (w, [])).2.
End Observations.

Definition calls (t : list event) : list call := fst <$> t.
Definition outcomes (t : list event) : list outcome := snd <$> t.

Definition returned (ev : event) : Prop :=
  match ev.2 with Returned _ => True | Raised _ => False end.

Definition is_new_context (c : call) : bool :=
  match c with NewContext _ _ => true | _ => false end.
Definition is_new_page (c : call) : bool :=
  match c with NewPage _ => true | _ => false end.
Definition is_goto (c : call) : bool :=
  match c with Goto _ _ => true | _ => false end.
Definition is_screenshot (c : call) : bool :=
  match c with Screenshot _ _ => true | _ => false end.
Definition is_close (c : call) : bool :=
  match c with Close _ => true | _ => false end.

(** The calls written in the body of [run] (as opposed to the two calls
    the [with] statement makes on the context manager). *)
Definition is_step (c : call) : bool :=
  match c with
  | SyncPlaywrightEnter | SyncPlaywrightExit _ => false
  | _ => true
  end.

(** The log of a [run] in which nothing raises, for the handles the API
    handed out. *)
Definition complete (pw : playwright) (b : browser) (c : context) (p : page)
    : list event :=
  [ (ChromiumLaunch pw, Returned (VBrowser b));
    (NewContext b viewport, Returned (VContext c));
    (NewPage c, Returned (VPage p));
    (Goto p url, Returned VNone);
    (Screenshot p path, Returned VNone);
    (Close b, Returned VNone) ].

(** All the logs [run] can leave behind, with the result that goes with
    each: one case per statement that can raise, and the normal return. *)
Inductive run_log (pw : playwright) : list event → result unit → Prop :=
| log_launch_raised e :
    run_log pw [(ChromiumLaunch pw, Raised e)] (Raise e)
| log_new_context_raised b e :
    run_log pw (take 1 (complete pw b 0 0)
                  ++ [(NewContext b viewport, Raised e)]) (Raise e)
| log_new_page_raised b c e :
    run_log pw (take 2 (complete pw b c 0)
                  ++ [(NewPage c, Raised e)]) (Raise e)
| log_goto_raised b c p e :
    run_log pw (take 3 (complete pw b c p)
                  ++ [(Goto p url, Raised e)]) (Raise e)
| log_screenshot_raised b c p e :
    run_log pw (take 4 (complete pw b c p)
                  ++ [(Screenshot p path, Raised e)]) (Raise e)
| log_close_raised b c p e :
    run_log pw (take 5 (complete pw b c p)
                  ++ [(Close b, Raised e)]) (Raise e)
| log_returned b c p :
    run_log pw (complete pw b c p) (Ok tt).

(** What the [with] statement adds around a [run]. *)
Inductive script_log : list event → result unit → Prop :=
| log_enter_raised e :
    script_log [(SyncPlaywrightEnter, Raised e)] (Raise e)
| log_exit_normal pw t x :
    run_log pw t (Ok tt) →
    script_log ((SyncPlaywrightEnter, Returned (VPlaywright pw)) :: t
                  ++ [(SyncPlaywrightExit None, Returned (VBool x))]) (Ok tt)
| log_exit_normal_raised pw t e' :
    run_log pw t (Ok tt) →
    script_log ((SyncPlaywrightEnter, Returned (VPlaywright pw)) :: t
                  ++ [(SyncPlaywrightExit None, Raised e')]) (Raise e')
| log_exit_swallowed pw t e :
    run_log pw t (Raise e) →
    script_log ((SyncPlaywrightEnter, Returned (VPlaywright pw)) :: t
                  ++ [(SyncPlaywrightExit (Some e), Returned (VBool true))])
               (Ok tt)
| log_exit_reraised pw t e :
    run_log pw t (Raise e) →
    script_log ((SyncPlaywrightEnter, Returned (VPlaywright pw)) :: t
                  ++ [(SyncPlaywrightExit (Some e), Returned (VBool false))])
               (Raise e)
| log_exit_raised pw t e e' :
    run_log pw t (Raise e) →
    script_log ((SyncPlaywrightEnter, Returned (VPlaywright pw)) :: t
                  ++ [(SyncPlaywrightExit (Some e), Raised e')])
               (Raise e').

(** ** Views of a log used in the statements below *)

(** What the [with] statement makes of an exception [e] raised by its
    body, given the outcome [o] of the context manager's [__exit__]. *)
Definition after_exit (e : exn) (o : outcome) : result unit :=
  match o with
  | Returned (VBool true) => Ok tt
  | Returned _ => Raise e
  | Raised e' => Raise e'
  end.

(** What C3 asks of a single call: a context is only ever requested with
    the 375 by 667 viewport, a navigation only ever goes to the local
    development server. *)
Definition hardcoded (c : call) : Prop :=
  match c with
  | NewContext _ vp =>
      vp = {[ "width" := 375%Z; "height" := 667%Z ]}
      ∧ vp !! "width" = Some 375%Z ∧ vp !! "height" = Some 667%Z
  | Goto _ u => u = "http://127.0.0.1:5173/"
  | _ => True
  end.

(** The world the whole script leaves behind. *)
Definition script_world {W : Type} (api : sync_api W) (w : W) : W :=
  (script api (w, [])).1.1.

(** The calls that have to return before a browser context exists. *)
Definition is_setup (c : call) : bool :=
  match c with
  | SyncPlaywrightEnter | ChromiumLaunch _ | NewContext _ _ => true
  | _ => false
  end.

(** The browser contexts that came into being during an execution. *)
Definition created_contexts (t : list event) : list context :=
  omap (λ ev, match ev with
              | (NewContext _ _, Returned (VContext c)) => Some c
              | _ => None
              end) t.

(** A call without the object identities and exception it mentions: the
    operation and the literal arguments the script itself supplies. *)
Inductive operation : Type :=
| OpEnter
| OpExit (in_flight : bool)
| OpLaunch
| OpNewContext (viewport : gmap string Z)
| OpNewPage
| OpGoto (url : string)
| OpScreenshot (path : string)
| OpClose.

Definition operation_of (c : call) : operation :=
  match c with
  | SyncPlaywrightEnter => OpEnter
  | SyncPlaywrightExit exc => OpExit (bool_decide (is_Some exc))
  | ChromiumLaunch _ => OpLaunch
  | NewContext _ vp => OpNewContext vp
  | NewPage _ => OpNewPage
  | Goto _ u => OpGoto u
  | Screenshot _ f => OpScreenshot f
  | Close _ => OpClose
  end.

Definition raised (o : outcome) : bool :=
  match o with Raised _ => true | Returned _ => false end.

(** The object a call is made on.  In the source every one of them is a
    variable bound to the result of an earlier call: [playwright] by the
    [with] statement, [browser], [context] and [page] in [run]. *)
Definition receiver (c : call) : option value :=
  match c with
  | SyncPlaywrightEnter | SyncPlaywrightExit _ => None
  | ChromiumLaunch pw => Some (VPlaywright pw)
  | NewContext b _ => Some (VBrowser b)
  | NewPage c => Some (VContext c)
  | Goto p _ | Screenshot p _ => Some (VPage p)
  | Close b => Some (VBrowser b)
  end.

(** ** What is assumed of the browser when an image is spoken of *)

(** Playwright and the browser it drives are not part of the repository:
    what they draw cannot be read off the script.  Statements about the
    image are therefore made against a contract, for any API that honours
    it.  A [browser_view] says what can be observed of a world: the
    viewport a context was created with, the viewport and the address of
    a page, and the image held by a file. *)
Record browser_view (W I : Type) : Type := BrowserView {
  context_viewport : W → context → option (gmap string Z);
  page_viewport : W → page → option (gmap string Z);
  page_url : W → page → option string;
  file_image : W → string → option I
}.
Arguments context_viewport {W I} _ _ _.
Arguments page_viewport {W I} _ _ _.
Arguments page_url {W I} _ _ _.
Arguments file_image {W I} _ _ _.

(** The contract.  A context keeps the viewport it was created with, a
    page takes the viewport of its context, a navigation that returns
    leaves the page at the address asked for and its viewport alone, and
    a screenshot that returns writes [render u vp] to the file, where [u]
    and [vp] are the address and the viewport of the page.  That the
    image is a function [render] of address and viewport alone is what
    "the page content is static" amounts to.  Closing the browser and
    leaving the context manager do not touch files. *)
Record rendering {W I : Type} (api : sync_api W) (view : browser_view W I)
    (render : string → gmap string Z → I) : Prop := Rendering {
  rendering_new_context b vp w w' c :
    new_context api b vp w = (w', Ok c) →
    context_viewport view w' c = Some vp;
  rendering_new_page c w w' p :
    new_page api c w = (w', Ok p) →
    page_viewport view w' p = context_viewport view w c;
  rendering_goto p u w w' :
    goto api p u w = (w', Ok tt) →
    page_url view w' p = Some u
    ∧ page_viewport view w' p = page_viewport view w p;
  rendering_screenshot p f w w' u vp :
    screenshot api p f w = (w', Ok tt) →
    page_url view w p = Some u →
    page_viewport view w p = Some vp →
    file_image view w' f = Some (render u vp);
  rendering_close b w w' r f :
    close api b w = (w', r) →
    file_image view w' f = file_image view w f;
  rendering_exit exc w w' r f :
    cm_exit api exc w = (w', r) →
    file_image view w' f = file_image view w f
}.

(** The size of what is drawn: an image of a [wd] by [ht] viewport is
    [scale wd] by [scale ht] pixels, [scale] being the browser's device
    pixel ratio (the identity for the default ratio of 1). *)
Definition sized {I : Type} (render : string → gmap string Z → I)
    (pixels : I → Z * Z) (scale : Z → Z) : Prop :=
  ∀ u vp wd ht,
    vp !! "width" = Some wd → vp !! "height" = Some ht →
    pixels (render u vp) = (scale wd, scale ht).

(** ** Simulated environments, for concrete executions *)

Module Sim.
(** A toy world: the next fresh object identity and the files on disk. *)
Record world : Type := World { next_id : nat; files : list string }.

Definition boot : world := World 1 [].

Definition fresh (w : world) : world * result nat :=
  (World (S (next_id w)) (files w), Ok (next_id w)).

Definition write (f : string) (w : world) : world * result unit :=
  (World (next_id w) (f :: files w), Ok tt).

(** Perform [f] for the call [c] unless [fails] says that [c] raises. *)
Definition guarded {A} (fails : call → option exn) (c : call)
    (f : world → world * result A) (w : world) : world * result A :=
  match fails c with
  | Some e => (w, Raise e)
  | None => f w
  end.

(** [faulty fails] raises [e] at every call [c] with [fails c = Some e]
    and behaves otherwise; its context manager never swallows. *)
Definition faulty (fails : call → option exn) : sync_api world :=
  {| cm_enter := guarded fails SyncPlaywrightEnter fresh;
     cm_exit exc :=
       guarded fails (SyncPlaywrightExit exc) (fun w => (w, Ok false));
     chromium_launch pw := guarded fails (ChromiumLaunch pw) fresh;
     new_context b vp := guarded fails (NewContext b vp) fresh;
     new_page c := guarded fails (NewPage c) fresh;
     goto p u := guarded fails (Goto p u) (fun w => (w, Ok tt));
     screenshot p f := guarded fails (Screenshot p f) (write f);
     close b := guarded fails (Close b) (fun w => (w, Ok tt)) |}.

Definition healthy : sync_api world := faulty (fun _ => None).

(** The development server is not running. *)
Definition server_down : sync_api world :=
  faulty (fun c => if is_goto c then Some "net::ERR_CONNECTION_REFUSED"
                   else None).

(** Chromium is not installed. *)
Definition no_browser : sync_api world :=
  faulty (fun c => match c with
                   | ChromiumLaunch _ => Some "Executable doesn't exist"
                   | _ => None
                   end).

(** The browser has gone away by the time it is closed. *)
Definition close_fails : sync_api world :=
  faulty (fun c => if is_close c then Some "Target closed" else None).

(** A second healthy world, handing out other object identities. *)
Definition boot' : world := World 40 [].
End Sim.

(** A toy browser that honours the contract: it remembers the viewport
    of every context and page and the address of every page, and a
    screenshot stores what it was taken of. *)
Module Chromium.
Record world : Type := World {
  next_id : nat;
  contexts : gmap nat (gmap string Z);
  pages : gmap nat (gmap string Z);
  location : gmap nat string;
  disk : gmap string (string * gmap string Z)
}.

Definition boot : world := World 1 ∅ ∅ ∅ ∅.
Definition boot' : world := World 40 ∅ ∅ ∅ ∅.

Definition fresh (w : world) : world * result nat :=
  (World (S (next_id w)) (contexts w) (pages w) (location w) (disk w),
   Ok (next_id w)).

Definition api : sync_api world :=
  {| cm_enter := fresh;
     cm_exit exc w := (w, Ok false);
     chromium_launch pw := fresh;
     new_context b vp w :=
       (World (S (next_id w)) (<[next_id w := vp]> (contexts w)) (pages w)
          (location w) (disk w),
        Ok (next_id w));
     new_page c w :=
       (World (S (next_id w)) (contexts w)
          (partial_alter (λ _, contexts w !! c) (next_id w) (pages w))
          (location w) (disk w),
        Ok (next_id w));
     goto p u w :=
       (World (next_id w) (contexts w) (pages w) (<[p := u]> (location w))
          (disk w),
        Ok tt);
     screenshot p f w :=
       match location w !! p, pages w !! p with
       | Some u, Some vp =>
           (World (next_id w) (contexts w) (pages w) (location w)
              (<[f := (u, vp)]> (disk w)),
            Ok tt)
       | _, _ => (w, Raise "page is blank")
       end;
     close b w := (w, Ok tt) |}.

Definition view : browser_view world (string * gmap string Z) :=
  {| context_viewport w c := contexts w !! c;
     page_viewport w p := pages w !! p;
     page_url w p := location w !! p;
     file_image w f := disk w !! f |}.

Definition render (u : string) (vp : gmap string Z)
    : string * gmap string Z := (u, vp).

Definition pixels (img : string * gmap string Z) : Z * Z :=
  (default 0%Z (img.2 !! "width"), default 0%Z (img.2 !! "height")).
End Chromium.

Example healthy_run :
  run_trace Sim.healthy 7 Sim.boot = complete 7 1 2 3
  ∧ run_result Sim.healthy 7 Sim.boot = Ok tt
  ∧ Sim.files (run_world Sim.healthy 7 Sim.boot) = [path].
Proof. vm_compute. done. Qed.

Example server_down_run :
  run_trace Sim.server_down 7 Sim.boot
    = take 3 (complete 7 1 2 3) ++ [(Goto 3 url, Raised "net::ERR_CONNECTION_REFUSED")]
  ∧ run_result Sim.server_down 7 Sim.boot = Raise "net::ERR_CONNECTION_REFUSED"
  ∧ Sim.files (run_world Sim.server_down 7 Sim.boot) = [].
Proof. vm_compute. done. Qed.

Example server_down_script :
  script_trace Sim.server_down Sim.boot
    = (SyncPlaywrightEnter, Returned (VPlaywright 1))
        :: take 3 (complete 1 2 3 4)
        ++ [ (Goto 4 url, Raised "net::ERR_CONNECTION_REFUSED");
             (SyncPlaywrightExit (Some "net::ERR_CONNECTION_REFUSED"),
              Returned (VBool false)) ]
  ∧ script_result Sim.server_down Sim.boot = Raise "net::ERR_CONNECTION_REFUSED".
Proof. vm_compute. done. Qed.

(** ** Every execution leaves one of the logs above *)

Section Soundness.
Context {W : Type} (api : sync_api W).

(** [run] only ever appends to the log it is started with. *)
Lemma run_frame pw w t0 :
  run api pw (w, t0)
  = ((run_world api pw w, t0 ++ run_trace api pw w), run_result api pw w).
Proof.
  unfold run_world, run_trace, run_result, run, bind, invoke; simpl.
  destruct (chromium_launch api pw w) as [w1 [b|e]]; simpl; [|done].
  destruct (new_context api b viewport w1) as [w2 [c|e]]; simpl;
    [|by rewrite <- app_assoc].
  destruct (new_page api c w2) as [w3 [p|e]]; simpl;
    [|by rewrite <- !app_assoc].
  destruct (goto api p url w3) as [w4 [?|e]]; simpl;
    [|by rewrite <- !app_assoc].
  destruct (screenshot api p path w4) as [w5 [?|e]]; simpl;
    [|by rewrite <- !app_assoc].
  destruct (close api b w5) as [w6 [?|e]]; simpl;
    by rewrite <- !app_assoc.
Qed.

Lemma run_sound pw w : run_log pw (run_trace api pw w) (run_result api pw w).
Proof.
  unfold run_trace, run_result, run, bind, invoke; simpl.
  destruct (chromium_launch api pw w) as [w1 [b|e]]; simpl;
    [|apply log_launch_raised].
  destruct (new_context api b viewport w1) as [w2 [c|e]]; simpl;
    [|apply log_new_context_raised].
  destruct (new_page api c w2) as [w3 [p|e]]; simpl;
    [|apply log_new_page_raised].
  destruct (goto api p url w3) as [w4 [?|e]]; simpl;
    [|apply log_goto_raised].
  destruct (screenshot api p path w4) as [w5 [?|e]]; simpl;
    [|apply log_screenshot_raised].
  destruct (close api b w5) as [w6 [[]|e]]; simpl;
    [apply log_returned|apply log_close_raised].
Qed.

Lemma script_sound w : script_log (script_trace api w) (script_result api w).
Proof.
  unfold script_trace, script_result, script, with_, invoke; simpl.
  destruct (cm_enter api w) as [w1 [pw|e]]; simpl; [|constructor].
  rewrite run_frame.
  pose proof (run_sound pw w1) as Hrun.
  destruct (run_result api pw w1) as [[]|e]; simpl.
  - destruct (cm_exit api None _) as [w3 [x|e']]; simpl; by constructor.
  - destruct (cm_exit api (Some e) _) as [w3 [[|]|e']]; simpl;
      by constructor.
Qed.
(** The script around a [run] that raises: [__exit__] is called with the
    exception, in the world [run] left behind, and decides the result. *)
Lemma script_after_raise w w1 pw e :
  cm_enter api w = (w1, Ok pw) →
  run_result api pw w1 = Raise e →
  let x := cm_exit api (Some e) (run_world api pw w1) in
  script api (w, [])
  = ((x.1, (SyncPlaywrightEnter, Returned (VPlaywright pw))
             :: run_trace api pw w1
             ++ [(SyncPlaywrightExit (Some e), outcome_of VBool x.2)]),
     after_exit e (outcome_of VBool x.2)).
Proof.
  intros Henter Hres x. subst x.
  unfold script, with_, invoke; simpl.
  rewrite Henter; simpl. rewrite run_frame, Hres; simpl.
  destruct (cm_exit api (Some e) (run_world api pw w1)) as [w3 [[|]|e']];
    simpl; rewrite <- ?app_assoc; done.
Qed.

(** The script around a [run] that returns: [__exit__] is called with
    [None], and only an exception of its own can still fail the script. *)
Lemma script_after_return w w1 pw :
  cm_enter api w = (w1, Ok pw) →
  run_result api pw w1 = Ok tt →
  let x := cm_exit api None (run_world api pw w1) in
  script api (w, [])
  = ((x.1, (SyncPlaywrightEnter, Returned (VPlaywright pw))
             :: run_trace api pw w1
             ++ [(SyncPlaywrightExit None, outcome_of VBool x.2)]),
     match x.2 with Raise e' => Raise e' | Ok _ => Ok tt end).
Proof.
  intros Henter Hres x. subst x.
  unfold script, with_, invoke; simpl.
  rewrite Henter; simpl. rewrite run_frame, Hres; simpl.
  destruct (cm_exit api None (run_world api pw w1)) as [w3 [?|e']];
    simpl; rewrite <- ?app_assoc; done.
Qed.
End Soundness.

(** ** Reasoning by cases on the log *)

(** Split a goal on the shape of the log of a [run] (seven cases) or of
    the script (the cases of [with] over those of [run]). *)
Ltac run_cases api pw w :=
  let H := fresh "Hlog" in
  pose proof (run_sound api pw w) as H;
  destruct H; unfold complete in *; simpl in *.

Ltac script_cases api w :=
  let H := fresh "Hlog" in
  pose proof (script_sound api w) as H;
  destruct H as [?|? ? ? Hrun|? ? ? Hrun|? ? ? Hrun|? ? ? Hrun|? ? ? ? Hrun];
  [|inversion Hrun; subst; clear Hrun ..];
  unfold complete in *; simpl in *.

(** Membership in a log that has been made explicit. *)
Ltac in_log H :=
  repeat (rewrite ?elem_of_cons, ?elem_of_nil in H);
  repeat match type of H with _ ∨ _ => destruct H as [H|H] end;
  try (exfalso; exact H); try discriminate H;
  simplify_eq.

(** Offer all but the last [n] events of the explicit log in the goal as
    the witness of its leading existential. *)
Ltac split_tail n :=
  match goal with
  | |- ∃ pre, ∃ _, ?t = _ ∧ _ =>
      let l := eval simpl in (take (length t - n) t) in exists l
  | |- ∃ pre, ?t = _ ∧ _ =>
      let l := eval simpl in (take (length t - n) t) in exists l
  end.

(** Instantiate [H : ∀ c e, (c, Raised e) ∈ t → _] at the raising event
    of the explicit log [t]. *)
Ltac raised_in H :=
  match type of H with
  | ∀ c e, _ ∈ ?t → _ =>
      match t with
      | context [(?c0, Raised ?e0)] => specialize (H c0 e0); simpl in H
      end
  end.

(** ** What the contract gives for the script *)

Section Rendering.
Context {W I : Type} (api : sync_api W) (view : browser_view W I).
Context (render : string → gmap string Z → I).
Context (Hbrowser : rendering api view render).

(** Under the contract, a screenshot call of [run] that returned leaves,
    in the world [run] ends in, the image of the development server's
    page in the 375 by 667 viewport at the fixed path. *)
Lemma run_renders pw w p f :
  (Screenshot p f, Returned VNone) ∈ run_trace api pw w →
  f = path
  ∧ file_image view (run_world api pw w) f = Some (render url viewport).
Proof.
  unfold run_trace, run_world, run, bind, invoke; simpl.
  destruct (chromium_launch api pw w) as [w1 [b|e]] eqn:E1; simpl;
    [|intros Hin; in_log Hin].
  destruct (new_context api b viewport w1) as [w2 [c|e]] eqn:E2; simpl;
    [|intros Hin; in_log Hin].
  destruct (new_page api c w2) as [w3 [p0|e]] eqn:E3; simpl;
    [|intros Hin; in_log Hin].
  destruct (goto api p0 url w3) as [w4 [[]|e]] eqn:E4; simpl;
    [|intros Hin; in_log Hin].
  destruct (screenshot api p0 path w4) as [w5 [[]|e]] eqn:E5; simpl;
    [|intros Hin; in_log Hin].
  destruct (close api b w5) as [w6 r] eqn:E6; simpl.
  intros Hin.
  assert (f = path) as ->.
  { destruct r; simpl in Hin; in_log Hin; reflexivity. }
  split; [reflexivity|].
  rewrite (rendering_close _ _ _ Hbrowser _ _ _ _ path E6).
  destruct (rendering_goto _ _ _ Hbrowser _ _ _ _ E4) as [Hurl Hvp].
  apply (rendering_screenshot _ _ _ Hbrowser _ _ _ _ _ _ E5 Hurl).
  rewrite Hvp, (rendering_new_page _ _ _ Hbrowser _ _ _ _ E3).
  exact (rendering_new_context _ _ _ Hbrowser _ _ _ _ _ E2).
Qed.

(** The same for the whole script: leaving the context manager does not
    touch the file. *)
Lemma script_renders w p f :
  (Screenshot p f, Returned VNone) ∈ script_trace api w →
  f = path
  ∧ file_image view (script_world api w) f = Some (render url viewport).
Proof.
  unfold script_trace, script_world.
  destruct (cm_enter api w) as [w1 [pw|e]] eqn:Henter.
  - assert (Hin : ∀ exc o,
      (Screenshot p f, Returned VNone)
        ∈ (SyncPlaywrightEnter, Returned (VPlaywright pw))
            :: run_trace api pw w1 ++ [(SyncPlaywrightExit exc, o)] →
      (Screenshot p f, Returned VNone) ∈ run_trace api pw w1).
    { intros exc o Hin. apply elem_of_cons in Hin as [Hin|Hin];
        [discriminate Hin|].
      apply elem_of_app in Hin as [Hin|Hin]; [exact Hin|].
      in_log Hin. }
    destruct (run_result api pw w1) as [[]|e] eqn:Hres.
    + rewrite (script_after_return api w w1 pw Henter Hres); simpl.
      intros Hshot. apply Hin, run_renders in Hshot as [-> Himg].
      split; [reflexivity|].
      destruct (cm_exit api None (run_world api pw w1)) as [w3 r] eqn:Hexit.
      simpl. by rewrite (rendering_exit _ _ _ Hbrowser _ _ _ _ path Hexit).
    + rewrite (script_after_raise api w w1 pw e Henter Hres); simpl.
      intros Hshot. apply Hin, run_renders in Hshot as [-> Himg].
      split; [reflexivity|].
      destruct (cm_exit api (Some e) (run_world api pw w1))
        as [w3 r] eqn:Hexit.
      simpl. by rewrite (rendering_exit _ _ _ Hbrowser _ _ _ _ path Hexit).
  - unfold script, with_, invoke; simpl. rewrite Henter; simpl.
    intros Hin. in_log Hin.
Qed.
End Rendering.

(** The toy browser honours the contract, at device pixel ratio 1. *)
Lemma chromium_rendering :
  rendering Chromium.api Chromium.view Chromium.render.
Proof.
  split; simpl.
  - intros b vp w w' c [= <- <-]; simpl. apply lookup_insert_eq.
  - intros c w w' p [= <- <-]; simpl. apply lookup_partial_alter_eq.
  - intros p u w w' [= <-]; simpl. split; [apply lookup_insert_eq|done].
  - intros p f w w' u vp Hshot Hu Hvp. rewrite Hu, Hvp in Hshot.
    injection Hshot as <-; simpl. apply lookup_insert_eq.
  - intros b w w' r f [= <- _]. reflexivity.
  - intros exc w w' r f [= <- _]. reflexivity.
Qed.

Lemma chromium_sized : sized Chromium.render Chromium.pixels id.
Proof.
  intros u vp wd ht Hwd Hht. unfold Chromium.pixels, Chromium.render; simpl.
  by rewrite Hwd, Hht.
Qed.

(** ** C1: the sequence of operations *)

(** C1, as stated, fails.  Not every execution performs the six
    operations: with the development server down the script stops at the
    navigation, so the screenshot and the close never happen. *)
Lemma run_sequence_cut_short_by_failure :
  ¬ (∀ (W : Type) (api : sync_api W) (pw : playwright) (w : W),
       ∃ b c p, calls (run_trace api pw w) = calls (complete pw b c p)).
Proof.
  intros Hall.
  destruct (Hall _ Sim.server_down 7 Sim.boot) as (b & c & p & Heq).
  apply (f_equal length) in Heq. vm_compute in Heq. discriminate Heq.
Qed.

(** C1 (amended).  In every execution of [run] the operations performed
    are, in order: launch, new context with the viewport, new page, goto
    the URL, screenshot to the path, close.  When [run] returns normally
    the log is exactly that sequence with nothing else; when it raises [e]
    the log is a prefix of it followed by the one operation that raised
    [e], and nothing at all is performed after that one. *)
Theorem run_sequence_or_prefix {W : Type} (api : sync_api W)
    (pw : playwright) (w : W) :
  ∃ b c p,
    match run_result api pw w with
    | Ok _ => run_trace api pw w = complete pw b c p
    | Raise e =>
        ∃ k cl,
          calls (complete pw b c p) !! k = Some cl
          ∧ run_trace api pw w = take k (complete pw b c p) ++ [(cl, Raised e)]
    end.
Proof.
  run_cases api pw w.
  - exists 0, 0, 0, 0, (ChromiumLaunch pw). done.
  - exists b, 0, 0, 1, (NewContext b viewport). done.
  - exists b, c, 0, 2, (NewPage c). done.
  - exists b, c, p, 3, (Goto p url). done.
  - exists b, c, p, 4, (Screenshot p path). done.
  - exists b, c, p, 5, (Close b). done.
  - exists b, c, p. done.
Qed.

(** ** C2: a failing step is not handled *)

(** C2.  Let the context manager hand [pw] to [run] and let a call [c]
    made by [run] raise [e].  Then [run] itself ends by raising that same
    [e]: every earlier call had returned, [c] was not attempted before and
    nothing is attempted after it.  In the script the one call that still
    follows is the [__exit__] the [with] statement owes the context
    manager, which is handed [e].  With an [__exit__] that returns a
    false value, as the one of [sync_playwright] does (it returns
    [None]), the script ends with [e] itself, unchanged, as its unhandled
    exception. *)
Theorem step_failure_propagates {W : Type} (api : sync_api W) (w w1 : W)
    (pw : playwright) (c : call) (e : exn) :
  cm_enter api w = (w1, Ok pw) →
  (c, Raised e) ∈ run_trace api pw w1 →
  let x := cm_exit api (Some e) (run_world api pw w1) in
  run_result api pw w1 = Raise e
  ∧ (∃ pre, run_trace api pw w1 = pre ++ [(c, Raised e)]
            ∧ Forall returned pre ∧ c ∉ calls pre)
  ∧ script_trace api w
    = (SyncPlaywrightEnter, Returned (VPlaywright pw))
        :: run_trace api pw w1
        ++ [(SyncPlaywrightExit (Some e), outcome_of VBool x.2)]
  ∧ script_result api w = after_exit e (outcome_of VBool x.2)
  ∧ (x.2 = Ok false → script_result api w = Raise e).
Proof.
  intros Henter Hin x.
  assert (Hres : run_result api pw w1 = Raise e
                 ∧ ∃ pre, run_trace api pw w1 = pre ++ [(c, Raised e)]
                          ∧ Forall returned pre ∧ c ∉ calls pre).
  { clear Henter x. revert Hin.
    run_cases api pw w1; intros Hin; in_log Hin.
    all: split; [reflexivity|].
    all: split_tail 1; split; [reflexivity|].
    all: split; [repeat constructor|].
    all: unfold calls; simpl; intros Hc; in_log Hc. }
  destruct Hres as [Hres Hpre].
  split; [exact Hres|]. split; [exact Hpre|].
  assert (Hscript : script_trace api w
              = (SyncPlaywrightEnter, Returned (VPlaywright pw))
                  :: run_trace api pw w1
                  ++ [(SyncPlaywrightExit (Some e), outcome_of VBool x.2)]
            ∧ script_result api w = after_exit e (outcome_of VBool x.2)).
  { subst x.
    unfold script_trace, script_result, script, with_, invoke; simpl.
    rewrite Henter; simpl. rewrite run_frame, Hres; simpl.
    destruct (cm_exit api (Some e) (run_world api pw w1)) as [w3 [[|]|e']];
      simpl; rewrite <- ?app_assoc; done. }
  destruct Hscript as [Htrace Hscript].
  split; [exact Htrace|]. split; [exact Hscript|].
  intros Hexit. rewrite Hscript, Hexit. reflexivity.
Qed.

Lemma step_failure_propagates_witness :
  let c := Goto 4 url in
  let e := "net::ERR_CONNECTION_REFUSED" in
  let w1 := Sim.World 2 [] in
  cm_enter Sim.server_down Sim.boot = (w1, Ok 1)
  ∧ (c, Raised e) ∈ run_trace Sim.server_down 1 w1
  ∧ (cm_exit Sim.server_down (Some e) (run_world Sim.server_down 1 w1)).2
    = Ok false
  ∧ run_result Sim.server_down 1 w1 = Raise e
  ∧ script_result Sim.server_down Sim.boot = Raise e.
Proof.
  intros c e w1.
  assert (Hin : (c, Raised e) ∈ run_trace Sim.server_down 1 w1)
    by (vm_compute; repeat constructor).
  split; [reflexivity|]. split; [exact Hin|]. split; [reflexivity|].
  destruct (step_failure_propagates Sim.server_down Sim.boot w1 1 c e
              eq_refl Hin) as (Hrun & _ & _ & _ & Hscript).
  split; [exact Hrun|exact (Hscript eq_refl)].
Defined.

(** ** C3: the viewport and the URL are literals *)

(** C3.  Whatever the API does and whatever object [run] is handed, every
    [new_context] call in the log carries the viewport of width 375 and
    height 667 and every [goto] call carries the URL of the local
    development server; the same holds of the log of the whole script. *)
Theorem viewport_and_url_hardcoded {W : Type} (api : sync_api W) (w : W) :
  (∀ pw, Forall hardcoded (calls (run_trace api pw w)))
  ∧ Forall hardcoded (calls (script_trace api w)).
Proof.
  split.
  - intros pw. run_cases api pw w; repeat constructor.
  - script_cases api w; repeat constructor.
Qed.

(** ** C5: the browser as a scoped resource *)

(** C5, as stated, fails.  A browser that was acquired is not always
    closed by the script: with the development server down the launch
    returns a browser and the last call of [run] is the failed
    navigation, not a close. *)
Lemma browser_not_closed_after_failure :
  ¬ (∀ (W : Type) (api : sync_api W) (pw : playwright) (w : W) (b : browser),
       (ChromiumLaunch pw, Returned (VBrowser b)) ∈ run_trace api pw w →
       last (calls (run_trace api pw w)) = Some (Close b)).
Proof.
  intros Hall.
  specialize (Hall _ Sim.server_down 7 Sim.boot 1).
  assert (Hclosed : last (calls (run_trace Sim.server_down 7 Sim.boot))
                    = Some (Close 1))
    by (apply Hall; vm_compute; repeat constructor).
  vm_compute in Hclosed. discriminate Hclosed.
Qed.

(** C5 (amended).  In every execution in which the launch returns a
    browser and no call before the close raises, the browser is acquired
    by the first call of [run] and explicitly closed, the same browser, by
    the last call; between the two there is no other launch and no other
    close. *)
Theorem browser_scoped_when_steps_return {W : Type} (api : sync_api W)
    (pw : playwright) (w : W) (b : browser) :
  (ChromiumLaunch pw, Returned (VBrowser b)) ∈ run_trace api pw w →
  (∀ c e, (c, Raised e) ∈ run_trace api pw w → is_close c = true) →
  ∃ mid o,
    run_trace api pw w
      = (ChromiumLaunch pw, Returned (VBrowser b)) :: mid ++ [(Close b, o)]
    ∧ Forall (λ ev, is_close ev.1 = false ∧ ev.1 ≠ ChromiumLaunch pw) mid.
Proof.
  run_cases api pw w; intros Hin Hok.
  1-5: exfalso; raised_in Hok; discriminate Hok; repeat constructor.
  all: in_log Hin.
  all: eexists [_; _; _; _], _; split; [reflexivity|].
  all: repeat constructor; discriminate.
Qed.

Lemma browser_scoped_when_steps_return_witness :
  (ChromiumLaunch 7, Returned (VBrowser 1)) ∈ run_trace Sim.healthy 7 Sim.boot
  ∧ ∃ mid o,
      run_trace Sim.healthy 7 Sim.boot
        = (ChromiumLaunch 7, Returned (VBrowser 1)) :: mid ++ [(Close 1, o)]
      ∧ Forall (λ ev, is_close ev.1 = false ∧ ev.1 ≠ ChromiumLaunch 7) mid.
Proof.
  assert (Hin : (ChromiumLaunch 7, Returned (VBrowser 1))
                  ∈ run_trace Sim.healthy 7 Sim.boot)
    by (vm_compute; repeat constructor).
  split; [exact Hin|].
  apply (browser_scoped_when_steps_return Sim.healthy 7 Sim.boot 1 Hin).
  intros c e Hraised. exfalso.
  change (run_trace Sim.healthy 7 Sim.boot) with (complete 7 1 2 3) in Hraised.
  unfold complete in Hraised. in_log Hraised.
Defined.

(** ** C6: one context, used once *)

(** C6, as stated, fails.  An execution does not always create a
    context: without a browser to launch the script never gets to
    [new_context]. *)
Lemma no_context_without_browser :
  ¬ (∀ (W : Type) (api : sync_api W) (w : W),
       length (created_contexts (script_trace api w)) = 1).
Proof.
  intros Hall. specialize (Hall _ Sim.no_browser Sim.boot).
  vm_compute in Hall. discriminate Hall.
Qed.

(** C6 (amended).  In every execution of the script either exactly one
    browser context is created, or none is and one of [__enter__], the
    launch and [new_context] itself raised; [new_context] is called at
    most once.  When no context is created, no page is requested and
    nothing is navigated; when one is, the three calls before it had
    returned, exactly one page is requested, from that context, and there
    is at most one navigation: the context is never used for a second
    page or a second navigation. *)
Theorem at_most_one_context_never_reused {W : Type} (api : sync_api W)
    (w : W) :
  let cs := calls (script_trace api w) in
  (length (filter (λ c, is_new_context c = true) cs) ≤ 1)%nat
  ∧ (length (filter (λ c, is_goto c = true) cs) ≤ 1)%nat
  ∧ match created_contexts (script_trace api w) with
    | [] => (∃ c e, (c, Raised e) ∈ script_trace api w ∧ is_setup c = true)
            ∧ filter (λ c, is_new_page c = true) cs = []
            ∧ filter (λ c, is_goto c = true) cs = []
    | [c] => Forall returned (take 3 (script_trace api w))
             ∧ filter (λ c, is_new_page c = true) cs = [NewPage c]
    | _ => False
    end.
Proof.
  script_cases api w.
  all: split; [vm_compute; lia|]; split; [vm_compute; lia|].
  all: simpl; split; try reflexivity; try (repeat constructor; fail).
  all: do 2 eexists; split; [repeat constructor|reflexivity].
Qed.

(** ** C7: a failed navigation stops the script short of the screenshot *)

(** C7.  If the navigation raises [e], [run] raises that same [e], the
    failed navigation is the last thing it did, and no screenshot call
    was made: nothing is written.  The same holds of the script that
    called [run]: its log has no screenshot call, and with an [__exit__]
    that returns a false value, as the one of [sync_playwright] does, the
    script fails with [e]. *)
Theorem navigation_failure_skips_screenshot {W : Type} (api : sync_api W)
    (pw : playwright) (w1 : W) (p : page) (u : string) (e : exn) :
  (Goto p u, Raised e) ∈ run_trace api pw w1 →
  run_result api pw w1 = Raise e
  ∧ last (run_trace api pw w1) = Some (Goto p u, Raised e)
  ∧ filter (λ c, is_screenshot c = true) (calls (run_trace api pw w1)) = []
  ∧ ∀ w, cm_enter api w = (w1, Ok pw) →
      filter (λ c, is_screenshot c = true) (calls (script_trace api w)) = []
      ∧ ((cm_exit api (Some e) (run_world api pw w1)).2 = Ok false →
         script_result api w = Raise e).
Proof.
  intros Hin.
  assert (Hrun : run_result api pw w1 = Raise e
            ∧ last (run_trace api pw w1) = Some (Goto p u, Raised e)
            ∧ filter (λ c, is_screenshot c = true)
                (calls (run_trace api pw w1)) = []).
  { revert Hin. run_cases api pw w1; intros Hin; in_log Hin; done. }
  destruct Hrun as (Hres & Hlast & Hnone).
  split; [exact Hres|]. split; [exact Hlast|]. split; [exact Hnone|].
  intros w Henter.
  pose proof (script_after_raise api w w1 pw e Henter Hres) as Hscript.
  simpl in Hscript. split.
  - unfold script_trace. rewrite Hscript. unfold calls in *. simpl.
    rewrite fmap_app, filter_cons_False by discriminate.
    rewrite filter_app, Hnone. reflexivity.
  - intros Hexit. unfold script_result. rewrite Hscript, Hexit. reflexivity.
Qed.

Lemma navigation_failure_skips_screenshot_witness :
  let e := "net::ERR_CONNECTION_REFUSED" in
  let w1 := Sim.World 2 [] in
  (Goto 4 url, Raised e) ∈ run_trace Sim.server_down 1 w1
  ∧ cm_enter Sim.server_down Sim.boot = (w1, Ok 1)
  ∧ (cm_exit Sim.server_down (Some e) (run_world Sim.server_down 1 w1)).2
    = Ok false
  ∧ run_result Sim.server_down 1 w1 = Raise e
  ∧ filter (λ c, is_screenshot c = true)
      (calls (script_trace Sim.server_down Sim.boot)) = []
  ∧ script_result Sim.server_down Sim.boot = Raise e.
Proof.
  intros e w1.
  assert (Hin : (Goto 4 url, Raised e) ∈ run_trace Sim.server_down 1 w1)
    by (vm_compute; repeat constructor).
  split; [exact Hin|]. split; [reflexivity|]. split; [reflexivity|].
  destruct (navigation_failure_skips_screenshot Sim.server_down 1 w1
              4 url e Hin) as (Hrun & _ & _ & Hscript).
  destruct (Hscript Sim.boot eq_refl) as [Hnone Hfail].
  split; [exact Hrun|]. split; [exact Hnone|exact (Hfail eq_refl)].
Defined.

(** ** C8: the screenshot is taken in the 375 by 667 context *)

(** C8.  Whenever a screenshot call is made on a page, that page was
    returned earlier in the same execution by [new_page] on a context that
    was itself returned by [new_context] called with the viewport of
    width 375 and height 667.  So, for any browser that honours the
    [rendering] contract and draws a [wd] by [ht] viewport as an image of
    [scale wd] by [scale ht] pixels, a screenshot call that returns
    leaves at its path an image of [scale 375] by [scale 667] pixels:
    375 by 667 at the default device pixel ratio. *)
Theorem screenshot_page_in_fixed_viewport {W : Type} (api : sync_api W)
    (pw : playwright) (w : W) (p : page) (f : string) (o : outcome) :
  (Screenshot p f, o) ∈ run_trace api pw w →
  (∃ b c vp pre post,
     run_trace api pw w = pre ++ (Screenshot p f, o) :: post
     ∧ (NewContext b vp, Returned (VContext c)) ∈ pre
     ∧ (NewPage c, Returned (VPage p)) ∈ pre
     ∧ vp !! "width" = Some 375%Z
     ∧ vp !! "height" = Some 667%Z)
  ∧ ∀ (I : Type) (view : browser_view W I)
      (render : string → gmap string Z → I)
      (pixels : I → Z * Z) (scale : Z → Z),
      rendering api view render →
      sized render pixels scale →
      o = Returned VNone →
      ∃ img,
        file_image view (run_world api pw w) f = Some img
        ∧ pixels img = (scale 375%Z, scale 667%Z).
Proof.
  intros Hin. split.
  - revert Hin. run_cases api pw w; intros Hin; in_log Hin.
    all: eexists _, _, _, [_; _; _; _], _; split; [reflexivity|].
    all: repeat split; repeat constructor.
  - intros I view render pixels scale Hbrowser Hsized ->.
    destruct (run_renders api view render Hbrowser pw w p f Hin)
      as [-> Himg].
    exists (render url viewport). split; [exact Himg|].
    by apply Hsized.
Qed.

Lemma screenshot_page_in_fixed_viewport_witness :
  (Screenshot 3 path, Returned VNone) ∈ run_trace Chromium.api 7 Chromium.boot
  ∧ ∃ img,
      Chromium.disk (run_world Chromium.api 7 Chromium.boot) !! path = Some img
      ∧ Chromium.pixels img = (375%Z, 667%Z).
Proof.
  assert (Hin : (Screenshot 3 path, Returned VNone)
                  ∈ run_trace Chromium.api 7 Chromium.boot)
    by (vm_compute; repeat constructor).
  split; [exact Hin|].
  exact (proj2 (screenshot_page_in_fixed_viewport Chromium.api 7
                  Chromium.boot 3 path (Returned VNone) Hin)
           _ Chromium.view Chromium.render Chromium.pixels id
           chromium_rendering chromium_sized eq_refl).
Defined.

(** ** C9: determinism *)

(** C9, as stated, fails.  Two executions need not perform the same
    operations: one against a healthy environment performs all of them,
    one with the development server down stops at the navigation. *)
Lemma executions_differ_when_failures_differ :
  ¬ (∀ (W1 W2 : Type) (api1 : sync_api W1) (api2 : sync_api W2)
       (w1 : W1) (w2 : W2),
       operation_of <$> calls (script_trace api1 w1)
         = operation_of <$> calls (script_trace api2 w2)).
Proof.
  intros Hall.
  specialize (Hall _ _ Sim.healthy Sim.server_down Sim.boot Sim.boot).
  apply (f_equal length) in Hall. vm_compute in Hall. discriminate Hall.
Qed.

(** In two executions in which the same calls succeed and fail, a
    screenshot call that returned in the one returned in the other. *)
Lemma screenshot_in_both {W1 W2 : Type}
    (api1 : sync_api W1) (api2 : sync_api W2) (w1 : W1) (w2 : W2) p f :
  raised <$> outcomes (script_trace api1 w1)
    = raised <$> outcomes (script_trace api2 w2) →
  (Screenshot p f, Returned VNone) ∈ script_trace api1 w1 →
  ∃ p', (Screenshot p' f, Returned VNone) ∈ script_trace api2 w2.
Proof.
  script_cases api1 w1; script_cases api2 w2; intros Hfate Hin;
    try discriminate Hfate; in_log Hin.
  all: eexists; repeat constructor.
Qed.

(** C9 (amended).  Take two executions of the script, against any two
    APIs in any two worlds, in which the same calls succeed and fail.
    Both perform the same operations in the same order with the same URL,
    viewport and output path; if moreover the API answers each call alike
    (the same objects, the same exceptions), the two logs and the two
    final results are equal: the script adds no choice of its own.  And
    if the page content is static, that is if both browsers honour the
    [rendering] contract for one and the same [render], a screenshot
    captured in the one execution is captured in the other and the two
    image files are identical. *)
Theorem script_deterministic {W1 W2 : Type}
    (api1 : sync_api W1) (api2 : sync_api W2) (w1 : W1) (w2 : W2) :
  raised <$> outcomes (script_trace api1 w1)
    = raised <$> outcomes (script_trace api2 w2) →
  operation_of <$> calls (script_trace api1 w1)
    = operation_of <$> calls (script_trace api2 w2)
  ∧ (outcomes (script_trace api1 w1) = outcomes (script_trace api2 w2) →
     script_trace api1 w1 = script_trace api2 w2
     ∧ script_result api1 w1 = script_result api2 w2)
  ∧ ∀ (I : Type) (view1 : browser_view W1 I) (view2 : browser_view W2 I)
      (render : string → gmap string Z → I),
      rendering api1 view1 render →
      rendering api2 view2 render →
      ∀ p f, (Screenshot p f, Returned VNone) ∈ script_trace api1 w1 →
        ∃ img,
          file_image view1 (script_world api1 w1) f = Some img
          ∧ file_image view2 (script_world api2 w2) f = Some img.
Proof.
  intros Hfate. split; [|split].
  - revert Hfate.
    script_cases api1 w1; script_cases api2 w2; intros Hfate;
      try discriminate Hfate; reflexivity.
  - revert Hfate.
    script_cases api1 w1; script_cases api2 w2; intros Hfate;
      try discriminate Hfate.
    all: intros Hout; simplify_eq; done.
  - intros I view1 view2 render Hb1 Hb2 p f Hin1.
    destruct (screenshot_in_both api1 api2 w1 w2 p f Hfate Hin1)
      as [p' Hin2].
    destruct (script_renders api1 view1 render Hb1 w1 p f Hin1)
      as [-> Himg1].
    destruct (script_renders api2 view2 render Hb2 w2 p' path Hin2)
      as [_ Himg2].
    exists (render url viewport). split; [exact Himg1|exact Himg2].
Qed.

Lemma script_deterministic_witness :
  raised <$> outcomes (script_trace Chromium.api Chromium.boot)
    = raised <$> outcomes (script_trace Chromium.api Chromium.boot')
  ∧ operation_of <$> calls (script_trace Chromium.api Chromium.boot)
    = operation_of <$> calls (script_trace Chromium.api Chromium.boot')
  ∧ ∃ img,
      Chromium.disk (script_world Chromium.api Chromium.boot) !! path
        = Some img
      ∧ Chromium.disk (script_world Chromium.api Chromium.boot') !! path
        = Some img.
Proof.
  split; [reflexivity|].
  destruct (script_deterministic Chromium.api Chromium.api
              Chromium.boot Chromium.boot' eq_refl) as (Hops & _ & Himg).
  split; [exact Hops|].
  apply (Himg _ Chromium.view Chromium.view Chromium.render
           chromium_rendering chromium_rendering 4 path).
  vm_compute. repeat constructor.
Defined.

(** ** C10: the explicit close is skipped on failure *)

(** C10.  If a step of [run] other than the close itself raises [e], the
    log of the whole script contains no close call at all: every call
    before the raising one had returned, and the one call made after it
    is the [__exit__] of the [sync_playwright] context manager, which
    receives [e]. *)
Theorem close_skipped_on_failure {W : Type} (api : sync_api W) (w : W)
    (c : call) (e : exn) :
  is_step c = true →
  is_close c = false →
  (c, Raised e) ∈ script_trace api w →
  filter (λ cl, is_close cl = true) (calls (script_trace api w)) = []
  ∧ ∃ pre o,
      script_trace api w
        = pre ++ [(c, Raised e); (SyncPlaywrightExit (Some e), o)]
      ∧ Forall returned pre.
Proof.
  script_cases api w; intros Hstep Hclose Hin; in_log Hin;
    try discriminate Hstep; try discriminate Hclose.
  all: split; [reflexivity|].
  all: split_tail 2; eexists; split; [reflexivity|repeat constructor].
Qed.

Lemma close_skipped_on_failure_witness :
  let c := Goto 4 url in
  let e := "net::ERR_CONNECTION_REFUSED" in
  is_step c = true
  ∧ is_close c = false
  ∧ (c, Raised e) ∈ script_trace Sim.server_down Sim.boot
  ∧ filter (λ cl, is_close cl = true)
      (calls (script_trace Sim.server_down Sim.boot)) = []
  ∧ ∃ pre o,
      script_trace Sim.server_down Sim.boot
        = pre ++ [(c, Raised e); (SyncPlaywrightExit (Some e), o)]
      ∧ Forall returned pre.
Proof.
  intros c e.
  assert (Hin : (c, Raised e) ∈ script_trace Sim.server_down Sim.boot)
    by (vm_compute; repeat constructor).
  split; [reflexivity|]. split; [reflexivity|]. split; [exact Hin|].
  exact (close_skipped_on_failure Sim.server_down Sim.boot c e
           eq_refl eq_refl Hin).
Defined.

(** ** Further properties of the script *)

(** *** The [with] statement around [run] *)

(** Offer all but the last event of the explicit log in the goal as the
    first of three witnesses. *)
Ltac but_last :=
  match goal with
  | |- ∃ mid, ∃ _, ∃ _, ?t = _ ∧ _ =>
      let l := eval simpl in (take (length t - 1) t) in exists l
  end.

(** The context manager brackets [run].  [__enter__] is the first call of
    every execution.  If it raises, nothing else is called, not even
    [__exit__], and the script ends with that exception.  If it returns,
    [__exit__] is called exactly once, as the last call, and everything in
    between is a call made by [run]; [__exit__] is handed [None] exactly
    when all of those calls returned, and otherwise the exception of the
    last of them. *)
Theorem context_manager_brackets_run {W : Type} (api : sync_api W) (w : W) :
  match script_trace api w with
  | (SyncPlaywrightEnter, Raised e) :: rest =>
      rest = [] ∧ script_result api w = Raise e
  | (SyncPlaywrightEnter, Returned (VPlaywright pw)) :: rest =>
      ∃ mid exc o,
        rest = mid ++ [(SyncPlaywrightExit exc, o)]
        ∧ Forall (λ ev, is_step ev.1 = true) mid
        ∧ match exc with
          | None => Forall returned mid
          | Some e => ∃ c, last mid = Some (c, Raised e)
          end
  | _ => False
  end.
Proof.
  script_cases api w; [done|..].
  all: but_last; do 2 eexists; split; [reflexivity|].
  all: split; [repeat constructor|].
  all: try (repeat constructor; fail).
  all: eexists; reflexivity.
Qed.

(** When [__enter__] hands over [pw] and [run] returns normally, the
    script calls [__exit__] with [None] in the world [run] left behind,
    and ends normally whatever [__exit__] returns; but if [__exit__]
    raises, the script ends with that exception although every step of
    [run], the screenshot included, went through. *)
Theorem normal_run_then_exit {W : Type} (api : sync_api W) (w w1 : W)
    (pw : playwright) :
  cm_enter api w = (w1, Ok pw) →
  run_result api pw w1 = Ok tt →
  let o := outcome_of VBool (cm_exit api None (run_world api pw w1)).2 in
  script_trace api w
    = (SyncPlaywrightEnter, Returned (VPlaywright pw))
        :: run_trace api pw w1 ++ [(SyncPlaywrightExit None, o)]
  ∧ script_result api w
    = match o with Raised e' => Raise e' | Returned _ => Ok tt end
  ∧ ∃ b c p, run_trace api pw w1 = complete pw b c p.
Proof.
  intros Henter Hres o. subst o.
  split; [|split].
  - unfold script_trace, script, with_, invoke; simpl.
    rewrite Henter; simpl. rewrite run_frame, Hres; simpl.
    destruct (cm_exit api None (run_world api pw w1)) as [w3 [x|e']];
      simpl; by rewrite <- ?app_assoc.
  - unfold script_result, script, with_, invoke; simpl.
    rewrite Henter; simpl. rewrite run_frame, Hres; simpl.
    by destruct (cm_exit api None (run_world api pw w1)) as [w3 [x|e']].
  - revert Hres. run_cases api pw w1; intros Hres; try discriminate Hres.
    by exists b, c, p.
Qed.

Lemma normal_run_then_exit_witness :
  let w1 := Sim.World 2 [] in
  cm_enter Sim.healthy Sim.boot = (w1, Ok 1)
  ∧ run_result Sim.healthy 1 w1 = Ok tt
  ∧ script_trace Sim.healthy Sim.boot
    = (SyncPlaywrightEnter, Returned (VPlaywright 1))
        :: run_trace Sim.healthy 1 w1
        ++ [(SyncPlaywrightExit None, Returned (VBool false))]
  ∧ script_result Sim.healthy Sim.boot = Ok tt.
Proof.
  intros w1. split; [reflexivity|]. split; [reflexivity|].
  destruct (normal_run_then_exit Sim.healthy Sim.boot w1 1 eq_refl eq_refl)
    as (Htrace & Hres & _).
  split; [exact Htrace|exact Hres].
Defined.

(** *** Order and data flow inside [run] *)

(** A screenshot is only ever attempted after the navigation on the same
    page has returned: the four calls before it are the launch, the
    context, the page and the [goto] to the URL, all returned, and it
    writes to the fixed path. *)
Theorem screenshot_only_after_navigation {W : Type} (api : sync_api W)
    (pw : playwright) (w : W) (p : page) (f : string) (o : outcome) :
  (Screenshot p f, o) ∈ run_trace api pw w →
  f = path
  ∧ ∃ b c post,
      run_trace api pw w
        = take 4 (complete pw b c p) ++ (Screenshot p f, o) :: post
      ∧ (Goto p url, Returned VNone) ∈ take 4 (complete pw b c p).
Proof.
  run_cases api pw w; intros Hin; in_log Hin.
  all: split; [reflexivity|].
  all: do 3 eexists; split; [reflexivity|repeat constructor].
Qed.

Lemma screenshot_only_after_navigation_witness :
  (Screenshot 3 path, Returned VNone) ∈ run_trace Sim.healthy 7 Sim.boot
  ∧ ∃ b c post,
      run_trace Sim.healthy 7 Sim.boot
        = take 4 (complete 7 b c 3) ++ (Screenshot 3 path, Returned VNone) :: post
      ∧ (Goto 3 url, Returned VNone) ∈ take 4 (complete 7 b c 3).
Proof.
  assert (Hin : (Screenshot 3 path, Returned VNone)
                  ∈ run_trace Sim.healthy 7 Sim.boot)
    by (vm_compute; repeat constructor).
  split; [exact Hin|].
  exact (proj2 (screenshot_only_after_navigation Sim.healthy 7 Sim.boot
                  3 path (Returned VNone) Hin)).
Defined.

(** A failure of [run] does not mean that no screenshot was written: if
    it is the final [close] that raises [e], [run] ends with [e] although
    the screenshot call before it had returned. *)
Theorem close_failure_after_screenshot {W : Type} (api : sync_api W)
    (pw : playwright) (w : W) (b : browser) (e : exn) :
  (Close b, Raised e) ∈ run_trace api pw w →
  run_result api pw w = Raise e
  ∧ ∃ c p,
      run_trace api pw w = take 5 (complete pw b c p) ++ [(Close b, Raised e)]
      ∧ (Screenshot p path, Returned VNone) ∈ run_trace api pw w.
Proof.
  run_cases api pw w; intros Hin; in_log Hin.
  split; [reflexivity|].
  do 2 eexists; split; [reflexivity|repeat constructor].
Qed.

Lemma close_failure_after_screenshot_witness :
  (Close 1, Raised "Target closed") ∈ run_trace Sim.close_fails 7 Sim.boot
  ∧ run_result Sim.close_fails 7 Sim.boot = Raise "Target closed"
  ∧ Sim.files (run_world Sim.close_fails 7 Sim.boot) = [path].
Proof.
  assert (Hin : (Close 1, Raised "Target closed")
                  ∈ run_trace Sim.close_fails 7 Sim.boot)
    by (vm_compute; repeat constructor).
  split; [exact Hin|].
  split; [|reflexivity].
  exact (proj1 (close_failure_after_screenshot Sim.close_fails 7 Sim.boot
                  1 "Target closed" Hin)).
Defined.

(** No operation is performed twice in an execution of the script: there
    is no loop and no retry, whichever calls fail. *)
Theorem no_operation_repeated {W : Type} (api : sync_api W) (w : W) :
  NoDup (operation_of <$> calls (script_trace api w)).
Proof.
  script_cases api w.
  all: repeat (apply NoDup_cons; split; [intros Hdup; in_log Hdup|]).
  all: apply NoDup_nil; exact I.
Qed.

(** Every call is made on an object the API itself returned earlier in
    the same execution: the script never calls a method on a browser,
    context or page other than the one it was handed. *)
Theorem receiver_was_returned {W : Type} (api : sync_api W) (w : W)
    (i : nat) (c : call) (o : outcome) (v : value) :
  script_trace api w !! i = Some (c, o) →
  receiver c = Some v →
  ∃ j c', (j < i)%nat ∧ script_trace api w !! j = Some (c', Returned v).
Proof.
  script_cases api w; intros Hi Hv.
  all: do 8 (try destruct i as [|i]); simpl in Hi; simplify_eq.
  all: simpl in Hv; simplify_eq.
  all: first
    [ eexists 0, _; split; [lia|reflexivity]
    | eexists 1, _; split; [lia|reflexivity]
    | eexists 2, _; split; [lia|reflexivity]
    | eexists 3, _; split; [lia|reflexivity] ].
Qed.

Lemma receiver_was_returned_witness :
  script_trace Sim.healthy Sim.boot !! 6%nat
    = Some (Close 2, Returned VNone)
  ∧ ∃ j c', (j < 6)%nat
      ∧ script_trace Sim.healthy Sim.boot !! j = Some (c', Returned (VBrowser 2)).
Proof.
  split; [reflexivity|].
  exact (receiver_was_returned Sim.healthy Sim.boot 6 (Close 2)
           (Returned VNone) (VBrowser 2) eq_refl eq_refl).
Defined.
